(** * Web-Tuner: the pitch pipeline of [popup.js]

    The tuner reads a window of audio samples, estimates its fundamental
    by autocorrelation ([autoCorrelate]), steadies the estimate over the
    last frames ([smoothFrequency]) and names the nearest equal-tempered
    note ([frequencyToNote], [frequencyToCents]).

    Numbers.  A JavaScript number is an IEEE-754 binary64 value.
    [autoCorrelate], [smoothFrequency] and [detectPitch] only add,
    subtract, multiply, divide, take square roots and compare, and these
    are the correctly rounded operations of Rocq's primitive floats: that
    part of the program is embedded bit for bit and can be run.  Lags,
    lengths and indices are whole numbers there; they are kept as
    integers, with the infinities and NaN that [Math.floor] can hand back.
    [frequencyToNote] and [frequencyToCents] call [Math.log] and
    [Math.pow], which ECMAScript leaves implementation-approximated; they
    are embedded over the real numbers, with the exact logarithm and
    power. *)

From Stdlib Require Import String.
From Stdlib Require Import ZArith List Bool Lia.
From Stdlib Require Import Floats.
From Stdlib Require Import Reals Lra Zfloor.
From Stdlib Require Import Permutation Sorted.
Import ListNotations.

Set Warnings "-inexact-float".

(** ** JavaScript numbers and typed arrays *)

Module JS.

Local Open Scope float_scope.

(** A number known to be whole: what [Math.floor] returns.  Whole
    doubles are compared, and below 2^53 also decremented, exactly like
    the integers they stand for. *)
Inductive whole : Type :=
| Int (z : Z)
| PosInfinity
| NegInfinity
| NotANumber.

(** [Math.floor]: the integer part towards minus infinity of a finite
    number (always a double itself); NaN and the infinities stay. *)
Definition Math_floor (x : float) : whole :=
  match Prim2SF x with
  | S754_zero _ => Int 0
  | S754_finite s m e => Int (Z.shiftl (cond_Zopp s (Zpos m)) e)
  | S754_infinity false => PosInfinity
  | S754_infinity true => NegInfinity
  | S754_nan => NotANumber
  end.

(** [Math.min(a, b)] with [b] an array length or half of one. *)
Definition Math_min (a : whole) (b : Z) : whole :=
  match a with
  | Int z => Int (Z.min z b)
  | PosInfinity => Int b
  | NegInfinity => NegInfinity
  | NotANumber => NotANumber
  end.

(** [a < b]; false as soon as NaN is involved. *)
Definition lt (a b : whole) : bool :=
  match a, b with
  | NotANumber, _ | _, NotANumber => false
  | _, NegInfinity | PosInfinity, _ => false
  | NegInfinity, _ | _, PosInfinity => true
  | Int x, Int y => (x <? y)%Z
  end.

(** [a - 1]. *)
Definition pred (a : whole) : whole :=
  match a with
  | Int z => Int (z - 1)
  | other => other
  end.

(** An integer used as a number in floating-point arithmetic (exact
    below 2^53). *)
Definition num (z : Z) : float :=
  SF2Prim (binary_normalize prec emax z 0 false).

Definition Math_abs (x : float) : float := PrimFloat.abs x.

Definition isNaN (x : float) : bool := is_nan x.

(** What a [Float32Array] keeps of a number stored in it: the nearest
    binary32 value (ties to even, overflow to an infinity). *)
Definition fround (x : float) : float :=
  match Prim2SF x with
  | S754_finite s m e => SF2Prim (binary_round 24 128 s m e)
  | _ => x
  end.

(** The integers [a], [a+1], ..., below [b]. *)
Definition Zrange (a b : Z) : list Z :=
  map (fun k => (a + Z.of_nat k)%Z) (seq 0 (Z.to_nat (b - a))).

(** The values a loop [for (let k = lo; k < hi; k++)] gives to [k].  A
    comparison with NaN fails, nothing lies above +Infinity or below
    -Infinity, and in these cases the body never runs.  (From -Infinity,
    or up to +Infinity, the JavaScript loop would not end; [autoCorrelate]
    cannot get there: its upper bound is at most half the frame length,
    and at most [Math.floor(sampleRate / 82)], which is -Infinity whenever
    [Math.floor(sampleRate / 1000)] is.) *)
Definition for_range (lo hi : whole) : list Z :=
  match lo, hi with
  | Int a, Int b => Zrange a b
  | _, _ => []
  end.

(** Reading a typed array: the element, or [undefined] out of range,
    which is NaN as soon as it enters arithmetic. *)
Definition get (a : list float) (i : Z) : option float :=
  if (i <? 0)%Z then None else nth_error a (Z.to_nat i).

Definition rd (a : list float) (i : Z) : float :=
  match get a i with
  | Some v => v
  | None => nan
  end.

(** [a.reduce((sum, val) => sum + val * val, 0)], which is also the loop
    [for (i = 0; i < SIZE; i++) rms += buffer[i] * buffer[i]]. *)
Definition sum_squares (a : list float) : float :=
  fold_left (fun sum val => sum + val * val) a 0.

(** [[...a].sort((x, y) => x - y)]: a stable insertion sort driven by the
    sign of the comparator. *)
Fixpoint insert_sorted (x : float) (l : list float) : list float :=
  match l with
  | [] => [x]
  | y :: l' => if x - y <? 0 then x :: l else y :: insert_sorted x l'
  end.

Definition sort_numeric (a : list float) : list float :=
  fold_left (fun acc x => insert_sorted x acc) a [].



End JS.

(** ** The tuner of [popup.js] *)

Module Tuner.

Import JS.
Local Open Scope float_scope.

Definition MIN_FREQUENCY : float := 82.
Definition MAX_FREQUENCY : float := 1000.

(** The root mean square of a frame, as [detectPitch] and [autoCorrelate]
    both compute it. *)
Definition rms_of (buffer : list float) : float :=
  PrimFloat.sqrt (sum_squares buffer / num (Z.of_nat (length buffer))).

(** One lag of the search loop: the sum over the first [MAX_SAMPLES]
    samples, then divided by [MAX_SAMPLES]. *)
Definition correlation_sum (nb : list float) (MAX_SAMPLES offset : Z) : float :=
  fold_left (fun c i => c + rd nb i * rd nb (i + offset))
            (Zrange 0 MAX_SAMPLES) 0.

Definition correlation (nb : list float) (MAX_SAMPLES offset : Z) : float :=
  correlation_sum nb MAX_SAMPLES offset / num MAX_SAMPLES.

(** The body of the search loop on [(best_offset, best_correlation)]. *)
Definition search_step (nb : list float) (MAX_SAMPLES : Z)
           (best : Z * float) (offset : Z) : Z * float :=
  let c := correlation nb MAX_SAMPLES offset in
  if snd best <? c then (offset, c) else best.

Definition search (nb : list float) (MAX_SAMPLES : Z) (offsets : list Z)
  : Z * float :=
  fold_left (search_step nb MAX_SAMPLES) offsets ((-1)%Z, 0).

(** The loop of the refinement: the three neighbouring sums at once. *)
Definition neighbours (nb : list float) (MAX_SAMPLES best_offset : Z)
  : float * float * float :=
  fold_left
    (fun '(c1, c2, c3) i =>
       (c1 + rd nb i * rd nb (i + best_offset - 1),
        c2 + rd nb i * rd nb (i + best_offset),
        c3 + rd nb i * rd nb (i + best_offset + 1)))
    (Zrange 0 MAX_SAMPLES) (0, 0, 0).

(** Parabolic interpolation around the best lag. *)
Definition parabola_delta (c1 c2 c3 : float) : float :=
  0.5 * (c1 - c3) / (c1 - 2 * c2 + c3).

(** The offset kept once [delta] is known. *)
Definition apply_delta (best_offset : Z) (delta : float) : float :=
  if negb (isNaN delta) && (Math_abs delta <? 1)
  then num best_offset + delta
  else num best_offset.

Definition refine (nb : list float) (MAX_SAMPLES best_offset : Z) : float :=
  let '(s1, s2, s3) := neighbours nb MAX_SAMPLES best_offset in
  let c1 := s1 / num MAX_SAMPLES in
  let c2 := s2 / num MAX_SAMPLES in
  let c3 := s3 / num MAX_SAMPLES in
  apply_delta best_offset (parabola_delta c1 c2 c3).

Definition normalize (buffer : list float) (rms : float) : list float :=
  map (fun v => fround (v / rms)) buffer.

(** The last check of [autoCorrelate]. *)
Definition in_band (frequency : float) : float :=
  if (MIN_FREQUENCY <=? frequency) && (frequency <=? MAX_FREQUENCY)
  then frequency
  else -1.

(** [autoCorrelate(buffer, sampleRate)]: a frequency, or -1. *)
Definition autoCorrelate (buffer : list float) (sampleRate : float) : float :=
  let SIZE := Z.of_nat (length buffer) in
  let MAX_SAMPLES := (SIZE / 2)%Z in
  let MAX_OFFSET := Math_floor (sampleRate / MIN_FREQUENCY) in
  let MIN_OFFSET := Math_floor (sampleRate / MAX_FREQUENCY) in
  let rms := rms_of buffer in
  if rms <? 0.01 then -1
  else
    let normalizedBuffer := normalize buffer rms in
    let '(best_offset, best_correlation) :=
      search normalizedBuffer MAX_SAMPLES
             (for_range MIN_OFFSET (Math_min MAX_OFFSET MAX_SAMPLES)) in
    if (0.5 <? best_correlation) && negb (best_offset =? -1)%Z then
      let refined_offset :=
        if lt MIN_OFFSET (Int best_offset)
           && lt (Int best_offset) (pred MAX_OFFSET)
        then refine normalizedBuffer MAX_SAMPLES best_offset
        else num best_offset in
      in_band (sampleRate / refined_offset)
    else -1.

(** The lags [autoCorrelate] searches, and what the search returns:
    the names its body gives to these expressions. *)
Definition search_window (buffer : list float) (sampleRate : float)
  : list Z :=
  for_range (Math_floor (sampleRate / MAX_FREQUENCY))
            (Math_min (Math_floor (sampleRate / MIN_FREQUENCY))
                      (Z.of_nat (length buffer) / 2)).

Definition best_lag (buffer : list float) (sampleRate : float) : Z * float :=
  search (normalize buffer (rms_of buffer)) (Z.of_nat (length buffer) / 2)
         (search_window buffer sampleRate).

(** *** Temporal smoothing *)

(** The two module-level variables [lastFrequency], [frequencyHistory]. *)
Record smoother : Type := {
  lastFrequency : float;
  frequencyHistory : list float
}.

Definition HISTORY_SIZE : nat := 5.
Definition SMOOTHING_FACTOR : float := 0.7.

(** [frequencyHistory.push(frequency)], then [shift()] when too long. *)
Definition push_history (history : list float) (frequency : float)
  : list float :=
  let pushed := history ++ [frequency] in
  if (HISTORY_SIZE <? length pushed)%nat then tl pushed else pushed.

(** [sorted[Math.floor(sorted.length / 2)]] of the sorted copy (the index
    is inside the array as soon as the history is not empty). *)
Definition middle_of_sorted (history : list float) : float :=
  let sorted := sort_numeric history in
  nth (length sorted / 2) sorted nan.

Definition smoothFrequency (frequency : float) (s : smoother)
  : float * smoother :=
  let history := push_history (frequencyHistory s) frequency in
  let last := lastFrequency s in
  let out :=
    if 0 <? last then
      let ratio := frequency / last in
      if (Math_abs (ratio - 0.5) <? 0.1) || (Math_abs (ratio - 2.0) <? 0.2)
      then last * 0.9 + frequency * 0.1
      else if Math_abs (ratio - 1.0) <? 0.5
      then last * SMOOTHING_FACTOR + frequency * (1 - SMOOTHING_FACTOR)
      else if (3 <=? length history)%nat
      then middle_of_sorted history
      else frequency
    else frequency in
  (out, {| lastFrequency := out; frequencyHistory := history |}).

(** The two octave bands and the band of normal variation, as
    [smoothFrequency] tests them. *)
Definition octave_suspect (ratio : float) : bool :=
  (Math_abs (ratio - 0.5) <? 0.1) || (Math_abs (ratio - 2.0) <? 0.2).

Definition normal_variation (ratio : float) : bool :=
  Math_abs (ratio - 1.0) <? 0.5.

(** *** The session *)

(** What the popup shows: nothing yet, "No signal", "Detecting...", or a
    reading (note, frequency and cents all derive from the smoothed
    frequency). *)
Inductive readout : Type :=
| Dash
| NoSignal
| Detecting
| Reading (smoothedFrequency : float).

Record tuner : Type := {
  isRunning : bool;
  state : smoother;
  shown : readout
}.

Definition cleared : smoother :=
  {| lastFrequency := -1; frequencyHistory := [] |}.

(** The page as loaded. *)
Definition initial : tuner :=
  {| isRunning := false; state := cleared; shown := Dash |}.

(** One animation frame; [buffer] is what the analyser wrote. *)
Definition detectPitch (buffer : list float) (sampleRate : float) (t : tuner)
  : tuner :=
  if negb (isRunning t) then t
  else
    let rms := rms_of buffer in
    if rms <? 0.01 then
      {| isRunning := isRunning t; state := state t; shown := NoSignal |}
    else
      let frequency := autoCorrelate buffer sampleRate in
      if 0 <? frequency then
        let '(smoothedFrequency, s) := smoothFrequency frequency (state t) in
        {| isRunning := isRunning t; state := s;
           shown := Reading smoothedFrequency |}
      else
        {| isRunning := isRunning t; state := state t; shown := Detecting |}.

Definition stopTuner (t : tuner) : tuner :=
  {| isRunning := false; state := cleared; shown := Dash |}.

(** [startTuner] once the capture is granted: the flag is set and the
    first frame analysed. *)
Definition startTuner (buffer : list float) (sampleRate : float) (t : tuner)
  : tuner :=
  detectPitch buffer sampleRate
    {| isRunning := true; state := state t; shown := shown t |}.

(** What can happen to the popup. *)
Inductive event : Type :=
| Start (buffer : list float) (sampleRate : float)
| Frame (buffer : list float) (sampleRate : float)
| Stop.

Definition step (t : tuner) (e : event) : tuner :=
  match e with
  | Start buffer sampleRate => startTuner buffer sampleRate t
  | Frame buffer sampleRate => detectPitch buffer sampleRate t
  | Stop => stopTuner t
  end.

Definition run (t : tuner) (es : list event) : tuner := fold_left step es t.

End Tuner.

(** ** The same estimator with every array read checked

  [autoCorrelate] again, loop for loop, but a read outside the array
  stops the computation with [None] instead of yielding [undefined]. *)

Module Checked.

Import JS Tuner.
Local Open Scope float_scope.

Definition bind {A B : Type} (m : option A) (k : A -> option B) : option B :=
  match m with
  | Some a => k a
  | None => None
  end.

Notation "x <- m ;; k" := (bind m (fun x => k))
  (at level 61, m at next level, right associativity).
Notation "' p <- m ;; k" := (bind m (fun x => match x with p => k end))
  (at level 61, p pattern, m at next level, right associativity).

(** A loop with an accumulator whose body may fail. *)
Definition loop {A : Type} (body : A -> Z -> option A) (range : list Z)
           (init : A) : option A :=
  fold_left (fun acc i => a <- acc ;; body a i) range (Some init).

Definition rms_of (buffer : list float) : option float :=
  let SIZE := Z.of_nat (length buffer) in
  sum <- loop (fun rms i => val <- get buffer i ;; Some (rms + val * val))
              (Zrange 0 SIZE) 0 ;;
  Some (PrimFloat.sqrt (sum / num SIZE)).

Definition normalize (buffer : list float) (rms : float)
  : option (list float) :=
  loop (fun out i => val <- get buffer i ;; Some (out ++ [fround (val / rms)]))
       (Zrange 0 (Z.of_nat (length buffer))) [].

Definition correlation (nb : list float) (MAX_SAMPLES offset : Z)
  : option float :=
  sum <- loop (fun c i =>
                 a <- get nb i ;;
                 b <- get nb (i + offset) ;;
                 Some (c + a * b))
              (Zrange 0 MAX_SAMPLES) 0 ;;
  Some (sum / num MAX_SAMPLES).

Definition search (nb : list float) (MAX_SAMPLES : Z) (offsets : list Z)
  : option (Z * float) :=
  loop (fun best offset =>
          c <- correlation nb MAX_SAMPLES offset ;;
          Some (if snd best <? c then (offset, c) else best))
       offsets ((-1)%Z, 0).

Definition neighbours (nb : list float) (MAX_SAMPLES best_offset : Z)
  : option (float * float * float) :=
  loop (fun '(c1, c2, c3) i =>
          a <- get nb i ;;
          b1 <- get nb (i + best_offset - 1) ;;
          b2 <- get nb (i + best_offset) ;;
          b3 <- get nb (i + best_offset + 1) ;;
          Some (c1 + a * b1, c2 + a * b2, c3 + a * b3))
       (Zrange 0 MAX_SAMPLES) (0, 0, 0).

Definition refine (nb : list float) (MAX_SAMPLES best_offset : Z)
  : option float :=
  '(s1, s2, s3) <- neighbours nb MAX_SAMPLES best_offset ;;
  let c1 := s1 / num MAX_SAMPLES in
  let c2 := s2 / num MAX_SAMPLES in
  let c3 := s3 / num MAX_SAMPLES in
  Some (apply_delta best_offset (parabola_delta c1 c2 c3)).

Definition autoCorrelate (buffer : list float) (sampleRate : float)
  : option float :=
  let SIZE := Z.of_nat (length buffer) in
  let MAX_SAMPLES := (SIZE / 2)%Z in
  let MAX_OFFSET := Math_floor (sampleRate / MIN_FREQUENCY) in
  let MIN_OFFSET := Math_floor (sampleRate / MAX_FREQUENCY) in
  rms <- rms_of buffer ;;
  if rms <? 0.01 then Some (-1)
  else
    normalizedBuffer <- normalize buffer rms ;;
    '(best_offset, best_correlation) <-
      search normalizedBuffer MAX_SAMPLES
             (for_range MIN_OFFSET (Math_min MAX_OFFSET MAX_SAMPLES)) ;;
    if (0.5 <? best_correlation) && negb (best_offset =? -1)%Z then
      refined_offset <-
        (if lt MIN_OFFSET (Int best_offset)
            && lt (Int best_offset) (pred MAX_OFFSET)
         then refine normalizedBuffer MAX_SAMPLES best_offset
         else Some (num best_offset)) ;;
      Some (in_band (sampleRate / refined_offset))
    else Some (-1).

End Checked.

(** ** The estimator as the specification words it

  Section 4.2 of the specification: the same steps, except that the
  sub-sample refinement is reserved to a best lag strictly inside the
  search window, whose upper end is [MAX_OFFSET] clipped to half the
  frame length. *)

Module Spec.

Import JS Tuner.
Local Open Scope float_scope.

Definition strictly_interior (MIN_OFFSET upper : whole) (best_offset : Z)
  : bool :=
  lt MIN_OFFSET (Int best_offset) && lt (Int best_offset) (pred upper).

Definition estimate_pitch (frame : list float) (sample_rate : float) : float :=
  let N := Z.of_nat (length frame) in
  let MAX_OFFSET :=
    Math_min (Math_floor (sample_rate / MIN_FREQUENCY)) (N / 2) in
  let MIN_OFFSET := Math_floor (sample_rate / MAX_FREQUENCY) in
  let rms := rms_of frame in
  if rms <? 0.01 then -1
  else
    let signal := normalize frame rms in
    let '(best_offset, best_correlation) :=
      search signal (N / 2) (for_range MIN_OFFSET MAX_OFFSET) in
    if (0.5 <? best_correlation) && negb (best_offset =? -1)%Z then
      let refined_offset :=
        if strictly_interior MIN_OFFSET MAX_OFFSET best_offset
        then
          let c1 := correlation signal (N / 2) (best_offset - 1) in
          let c2 := correlation signal (N / 2) best_offset in
          let c3 := correlation signal (N / 2) (best_offset + 1) in
          apply_delta best_offset (parabola_delta c1 c2 c3)
        else num best_offset in
      in_band (sample_rate / refined_offset)
    else -1.


End Spec.

(** ** Notes and cents, over the reals

  [Math.log] is the natural logarithm and [Math.pow] the real power:
  the rounding of the doubles, their overflow and their underflow are
  left out of this part. *)

Module NoteMapper.

Local Open Scope R_scope.
Local Open Scope string_scope.









End NoteMapper.

(** ** Frames and sessions used as examples *)

Module Samples.

Import JS Tuner.
Local Open Scope float_scope.

(** Eight samples of period 2 at 2000 samples per second: the best lag is
    2, the first of the window, and the answer is the upper end of the band. *)
Definition period_2 : list float := [1; -1; 1; -1; 1; -1; 1; -1].

(** Eight samples of period 3 at 2000 samples per second: the window
    holds the lags 2 and 3 only, and 3 is the best. *)
Definition period_3 : list float := [1; 1; -1; 1; 1; -1; 1; 1].

(** Twelve samples of period 3, one of them muted, at 1500 samples per
    second: the lags 1 to 5 are searched, 3 is the best, it lies inside
    and is refined to 3.0333... *)
Definition muted_3 : list float := [1; 1; -1; 1; 1; -1; 1; 1; -1; 0; 1; -1].

(** Steady readings of 220 Hz. *)
Definition steady_220 : smoother :=
  {| lastFrequency := 220; frequencyHistory := [220; 220; 220] |}.

Definition tuning_220 : tuner :=
  {| isRunning := true; state := steady_220; shown := Reading 220 |}.

(** The smoother after a run of readings, from the cleared state. *)
Definition fed (readings : list float) : smoother :=
  fold_left (fun s f => snd (smoothFrequency f s)) readings cleared.

End Samples.

(** * The display *)

Module Display.

Local Open Scope Z_scope.







End Display.

(** * Predicates and auxiliary values of the properties *)

Module Invariants.

Import JS Tuner.
Local Open Scope float_scope.

(** What the search loop keeps true of [(best_offset, best_correlation)]
    over the lags already visited. *)
Definition best_so_far (nb : list float) (M : Z) (visited : list Z)
           (best : Z * float) : Prop :=
  (best = ((-1)%Z, 0)
   \/ (In (fst best) visited
       /\ snd best = correlation nb M (fst best)
       /\ (0 <? snd best) = true))
  /\ forall k, In k visited -> (snd best <? correlation nb M k) = false.

(** The search loop again: every lag visited before the best one has a
    correlation that does not reach the best. *)
Definition first_best (nb : list float) (M : Z) (visited : list Z)
           (best : Z * float) : Prop :=
  best = ((-1)%Z, 0)
  \/ exists before after,
      visited = before ++ fst best :: after
      /\ forall k, In k before ->
                   (snd best <=? correlation nb M k) = false.

(** An event that is not a click on Start. *)
Definition not_start (e : event) : Prop :=
  match e with
  | Start _ _ => False
  | Frame _ _ | Stop => True
  end.

(** A frequency of the band of the estimator. *)
Definition within_band (f : float) : Prop :=
  (MIN_FREQUENCY <=? f) = true /\ (f <=? MAX_FREQUENCY) = true.

(** What every reachable state of the popup satisfies. *)
Definition coherent (t : tuner) : Prop :=
  (isRunning t = false -> t = initial)
  /\ (forall x, shown t = Reading x -> lastFrequency (state t) = x)
  /\ (frequencyHistory (state t) = [] -> state t = cleared).



End Invariants.

(** * Properties *)

Import JS Tuner Samples.

(** ** Comparisons of doubles *)

(** Two closed numbers are different as soon as one comparison tells
    them apart. *)
Ltac differ_below bound :=
  let E := fresh "E" in
  intros E; apply (f_equal (fun x => (x <? bound)%float)) in E;
  vm_compute in E; discriminate E.

Section FloatOrder.

Local Open Scope float_scope.

Lemma SFleb_not_SFltb (x y : spec_float) :
  SFleb x y = true -> SFltb y x = false.
Proof.
  unfold SFleb, SFltb.
  destruct x as [sx | sx | | sx mx ex], y as [sy | sy | | sy my ey];
    cbn; try discriminate; try reflexivity;
    try (destruct sx; try destruct sy; cbn; congruence).
  destruct sx, sy; try discriminate; try reflexivity;
    rewrite (Z.compare_antisym ex ey);
    destruct (ex ?= ey)%Z eqn:E; cbn; try discriminate; try reflexivity;
    rewrite (ZC4 my mx);
    destruct (Pos.compare_cont Eq mx my); cbn; congruence.
Qed.

(** [x <= y] excludes [y < x]. *)
Lemma leb_not_ltb (x y : float) : (x <=? y) = true -> (y <? x) = false.
Proof.
  rewrite leb_spec, ltb_spec. apply SFleb_not_SFltb.
Qed.

(** Nothing is below NaN. *)
Lemma ltb_nan_r (x : float) : (x <? nan) = false.
Proof.
  rewrite ltb_spec. unfold SFltb.
  replace (Prim2SF nan) with S754_nan by reflexivity.
  destruct (Prim2SF x); reflexivity.
Qed.





End FloatOrder.

(** ** The estimator: its answers *)

Section Estimator.

Local Open Scope float_scope.

Lemma in_band_cases (f : float) :
  in_band f = -1
  \/ (in_band f = f
      /\ (MIN_FREQUENCY <=? f) = true /\ (f <=? MAX_FREQUENCY) = true).
Proof.
  unfold in_band.
  destruct (MIN_FREQUENCY <=? f) eqn:Hlo; cbn [andb]; auto.
  destruct (f <=? MAX_FREQUENCY) eqn:Hhi; auto.
Qed.

(** [autoCorrelate] unfolded along its two early exits. *)
Lemma autoCorrelate_unfold (buffer : list float) (sampleRate : float) :
  autoCorrelate buffer sampleRate =
  if rms_of buffer <? 0.01 then -1
  else
    let nb := normalize buffer (rms_of buffer) in
    let M := (Z.of_nat (length buffer) / 2)%Z in
    let best := best_lag buffer sampleRate in
    if (0.5 <? snd best) && negb (fst best =? -1)%Z then
      in_band
        (sampleRate /
         (if lt (Math_floor (sampleRate / MAX_FREQUENCY)) (Int (fst best))
             && lt (Int (fst best))
                   (pred (Math_floor (sampleRate / MIN_FREQUENCY)))
          then refine nb M (fst best)
          else num (fst best)))
    else -1.
Proof.
  unfold autoCorrelate, best_lag, search_window.
  destruct (rms_of buffer <? 0.01); [reflexivity|].
  cbv zeta.
  destruct (search _ _ _) as [bo bc]. reflexivity.
Qed.

(** C1.  Whatever the frame and the sample rate, [autoCorrelate] answers
    -1 ("no pitch") or a frequency [f] with 82 <= f <= 1000, and it answers
    -1 whenever the best correlation found over the search window is at
    most 0.5.  Both ends of the band are let through: the last test keeps
    82 and 1000, and [period_2] is answered 1000 Hz. *)
Theorem autoCorrelate_no_pitch_or_in_band
        (buffer : list float) (sampleRate : float) :
  (autoCorrelate buffer sampleRate = -1
   \/ ((82 <=? autoCorrelate buffer sampleRate) = true
       /\ (autoCorrelate buffer sampleRate <=? 1000) = true))
  /\ ((snd (best_lag buffer sampleRate) <=? 0.5) = true ->
      autoCorrelate buffer sampleRate = -1)
  /\ in_band 82 = 82
  /\ in_band 1000 = 1000
  /\ autoCorrelate period_2 2000 = 1000.
Proof.
  split; [|split; [|repeat split; vm_compute; reflexivity]];
    rewrite autoCorrelate_unfold; cbv zeta;
    (destruct (rms_of buffer <? 0.01); [auto|]).
  - destruct ((0.5 <? snd (best_lag buffer sampleRate))
              && negb (fst (best_lag buffer sampleRate) =? -1)%Z);
      [|auto].
    match goal with |- context [in_band ?f] =>
      destruct (in_band_cases f) as [E | (E & Hlo & Hhi)]; rewrite E
    end; auto.
  - intros Hle. apply leb_not_ltb in Hle. rewrite Hle. reflexivity.
Qed.

(** A frame with a single click: no lag correlates, the answer is -1. *)
Lemma autoCorrelate_no_pitch_or_in_band_witness :
  (snd (best_lag [1; 0; 0; 0; 0; 0; 0; 0] 2000) <=? 0.5) = true
  /\ autoCorrelate [1; 0; 0; 0; 0; 0; 0; 0] 2000 = -1.
Proof.
  assert (H : (snd (best_lag [1; 0; 0; 0; 0; 0; 0; 0] 2000) <=? 0.5) = true)
    by (vm_compute; reflexivity).
  split; [exact H|].
  exact (proj1 (proj2 (autoCorrelate_no_pitch_or_in_band
                         [1; 0; 0; 0; 0; 0; 0; 0] 2000)) H).
Defined.

End Estimator.

(** ** The smoother *)

Section Smoother.

Local Open Scope float_scope.

(** C2.  With a last frequency [L > 0] and a new reading [F > 0] whose
    ratio [F / L] is within 0.1 of 0.5 or within 0.2 of 2, the smoother
    returns [L * 0.9 + F * 0.1].  After steady readings of 220 Hz one
    frame at 440 Hz therefore gives 242 Hz, a tenth of the way, and the
    next frame at 220 Hz is smoothed as a normal variation from 242. *)
Theorem smoothFrequency_octave_guard (s : smoother) (F : float) :
  (0 <? lastFrequency s) = true ->
  (0 <? F) = true ->
  octave_suspect (F / lastFrequency s) = true ->
  fst (smoothFrequency F s) = lastFrequency s * 0.9 + F * 0.1
  /\ fst (smoothFrequency 440 steady_220) = 242
  /\ (242 <? 440) = true
  /\ 242 - 220 = 0.1 * (440 - 220)
  /\ fst (smoothFrequency 220 (snd (smoothFrequency 440 steady_220)))
     = 242 * 0.7 + 220 * (1 - 0.7).
Proof.
  intros HL _ Hband. split.
  - unfold smoothFrequency. cbn [fst]. rewrite HL.
    unfold octave_suspect in Hband. rewrite Hband. reflexivity.
  - repeat split; vm_compute; reflexivity.
Qed.

Lemma smoothFrequency_octave_guard_witness :
  fst (smoothFrequency 440 steady_220) = 220 * 0.9 + 440 * 0.1.
Proof.
  exact (proj1 (smoothFrequency_octave_guard steady_220 440
                  eq_refl eq_refl eq_refl)).
Defined.

(** What the large-jump branch returns, by the code. *)
Lemma smoothFrequency_large_jump (s : smoother) (F : float) :
  (0 <? lastFrequency s) = true ->
  octave_suspect (F / lastFrequency s) = false ->
  normal_variation (F / lastFrequency s) = false ->
  fst (smoothFrequency F s) =
  let history := push_history (frequencyHistory s) F in
  if (3 <=? length history)%nat then middle_of_sorted history else F.
Proof.
  intros HL Hoct Hnorm. unfold smoothFrequency. cbn [fst]. rewrite HL.
  unfold octave_suspect in Hoct. rewrite Hoct.
  unfold normal_variation in Hnorm. rewrite Hnorm. reflexivity.
Qed.

Lemma insert_sorted_perm (x : float) (l : list float) :
  Permutation (insert_sorted x l) (x :: l).
Proof.
  induction l as [|y l IH]; cbn [insert_sorted]; [reflexivity|].
  destruct (x - y <? 0); [reflexivity|].
  rewrite IH. apply perm_swap.
Qed.

Lemma sort_numeric_perm (l : list float) : Permutation (sort_numeric l) l.
Proof.
  unfold sort_numeric.
  enough (H : forall acc, Permutation
              (fold_left (fun acc x => insert_sorted x acc) l acc)
              (acc ++ l))
    by (apply (H [])).
  induction l as [|x l IH]; intros acc; cbn [fold_left].
  - rewrite app_nil_r. reflexivity.
  - rewrite IH, insert_sorted_perm. apply Permutation_middle.
Qed.



Lemma push_history_last (h : list float) (F : float) :
  exists front, push_history h F = front ++ [F].
Proof.
  unfold push_history.
  destruct h as [|x h]; [exists []; reflexivity|].
  destruct (HISTORY_SIZE <? length ((x :: h) ++ [F]))%nat.
  - exists h. reflexivity.
  - exists (x :: h). reflexivity.
Qed.

Lemma push_history_shape (h : list float) (F : float) :
  (length h <= HISTORY_SIZE)%nat ->
  push_history h F =
  (if (length h =? HISTORY_SIZE)%nat then tl h else h) ++ [F].
Proof.
  intros Hlen. unfold push_history. rewrite length_app. cbn [length].
  unfold HISTORY_SIZE in *.
  destruct (length h =? 5)%nat eqn:E.
  - apply Nat.eqb_eq in E.
    replace (5 <? length h + 1)%nat with true
      by (symmetry; apply Nat.ltb_lt; lia).
    destruct h; [discriminate E|reflexivity].
  - apply Nat.eqb_neq in E.
    replace (5 <? length h + 1)%nat with false
      by (symmetry; apply Nat.ltb_ge; lia).
    reflexivity.
Qed.

Lemma push_history_length (h : list float) (F : float) :
  (length h <= HISTORY_SIZE)%nat ->
  (1 <= length (push_history h F) <= HISTORY_SIZE)%nat.
Proof.
  intros Hlen. rewrite push_history_shape by assumption.
  rewrite length_app. cbn [length]. unfold HISTORY_SIZE in *.
  destruct (length h =? 5)%nat eqn:E.
  - apply Nat.eqb_eq in E. destruct h; cbn [tl length] in *; lia.
  - apply Nat.eqb_neq in E. lia.
Qed.





End Smoother.

(** ** The history and the session *)

Section Session.

Local Open Scope float_scope.

(** The history of a smoother never holds more than five readings once
    it holds at most five. *)
Lemma smoothFrequency_bounded (s : smoother) (F : float) :
  (length (frequencyHistory s) <= 5)%nat ->
  (length (frequencyHistory (snd (smoothFrequency F s))) <= 5)%nat.
Proof.
  intros H. unfold smoothFrequency. cbn [snd frequencyHistory].
  apply (push_history_length _ F) in H. unfold HISTORY_SIZE in H. lia.
Qed.

Lemma detectPitch_bounded (buffer : list float) (sampleRate : float)
      (t : tuner) :
  (length (frequencyHistory (state t)) <= 5)%nat ->
  (length (frequencyHistory (state (detectPitch buffer sampleRate t))) <= 5)%nat.
Proof.
  intros H. unfold detectPitch.
  destruct (negb (isRunning t)); [exact H|].
  destruct (rms_of buffer <? 0.01); [exact H|].
  destruct (0 <? autoCorrelate buffer sampleRate); [|exact H].
  pose proof (smoothFrequency_bounded (state t)
                (autoCorrelate buffer sampleRate) H) as B.
  destruct (smoothFrequency _ _) as [out s']. exact B.
Qed.

Lemma step_bounded (t : tuner) (e : event) :
  (length (frequencyHistory (state t)) <= 5)%nat ->
  (length (frequencyHistory (state (step t e))) <= 5)%nat.
Proof.
  intros H. destruct e as [buffer sr | buffer sr |]; cbn [step].
  - unfold startTuner. apply detectPitch_bounded. exact H.
  - apply detectPitch_bounded. exact H.
  - cbn. lia.
Qed.

Lemma run_bounded (es : list event) (t : tuner) :
  (length (frequencyHistory (state t)) <= 5)%nat ->
  (length (frequencyHistory (state (run t es))) <= 5)%nat.
Proof.
  revert t. induction es as [|e es IH]; intros t H; cbn [run fold_left].
  - exact H.
  - apply IH. apply step_bounded. exact H.
Qed.

(** C6.  In every state the popup can reach, a call of the smoother with
    a raw reading [F] leaves a history of at most five readings, made of
    the former ones in their order, less the oldest one when there were
    five already, followed by [F] itself; and the last frequency kept is
    the value returned. *)
Theorem smoothFrequency_history (es : list event) (F : float) :
  let s := state (run initial es) in
  let out := fst (smoothFrequency F s) in
  let s' := snd (smoothFrequency F s) in
  (length (frequencyHistory s) <= 5)%nat
  /\ frequencyHistory s' =
     (if (length (frequencyHistory s) =? 5)%nat
      then tl (frequencyHistory s)
      else frequencyHistory s) ++ [F]
  /\ last (frequencyHistory s') 0 = F
  /\ (length (frequencyHistory s') <= 5)%nat
  /\ lastFrequency s' = out.
Proof.
  intros s out s'.
  assert (B : (length (frequencyHistory s) <= 5)%nat)
    by (apply run_bounded; cbn; lia).
  assert (E : frequencyHistory s' =
              (if (length (frequencyHistory s) =? 5)%nat
               then tl (frequencyHistory s)
               else frequencyHistory s) ++ [F])
    by (apply (push_history_shape (frequencyHistory s) F B)).
  repeat split.
  - exact B.
  - exact E.
  - rewrite E. apply last_last.
  - apply smoothFrequency_bounded. exact B.
Qed.

(** The same step from any smoother holding at most five readings. *)
Lemma smoothFrequency_history_step (s : smoother) (F : float) :
  (length (frequencyHistory s) <= 5)%nat ->
  frequencyHistory (snd (smoothFrequency F s)) =
    (if (length (frequencyHistory s) =? 5)%nat
     then tl (frequencyHistory s)
     else frequencyHistory s) ++ [F]
  /\ lastFrequency (snd (smoothFrequency F s)) = fst (smoothFrequency F s).
Proof.
  intros B. split; [|reflexivity].
  apply (push_history_shape (frequencyHistory s) F B).
Qed.

Lemma smoothFrequency_not_empty (s : smoother) (F : float) :
  frequencyHistory (snd (smoothFrequency F s)) <> [].
Proof.
  unfold smoothFrequency. cbn [snd frequencyHistory].
  destruct (push_history_last (frequencyHistory s) F) as [front E].
  rewrite E. destruct front; discriminate.
Qed.

Lemma detectPitch_history_empty (buffer : list float) (sampleRate : float)
      (t : tuner) :
  frequencyHistory (state (detectPitch buffer sampleRate t)) = [] ->
  frequencyHistory (state t) = [].
Proof.
  unfold detectPitch.
  destruct (negb (isRunning t)); [auto|].
  destruct (rms_of buffer <? 0.01); [auto|].
  destruct (0 <? autoCorrelate buffer sampleRate); [|auto].
  pose proof (smoothFrequency_not_empty (state t)
                (autoCorrelate buffer sampleRate)) as N.
  destruct (smoothFrequency _ _) as [out s']. cbn [state snd] in *.
  intros E. contradiction.
Qed.

(** C7.  A frame without enough signal, or in which [autoCorrelate]
    finds no pitch, leaves the last frequency and the history as they
    were; [stopTuner] clears them; and no other event empties a history
    that holds readings. *)
Theorem no_pitch_keeps_smoother
        (buffer : list float) (sampleRate : float) (t : tuner) :
  ((rms_of buffer <? 0.01) = true
   \/ (0 <? autoCorrelate buffer sampleRate) = false ->
   state (detectPitch buffer sampleRate t) = state t)
  /\ state (stopTuner t) = cleared
  /\ (forall e : event,
         frequencyHistory (state (step t e)) = [] ->
         e = Stop \/ frequencyHistory (state t) = []).
Proof.
  split; [|split].
  - intros H. unfold detectPitch.
    destruct (negb (isRunning t)); [reflexivity|].
    destruct (rms_of buffer <? 0.01) eqn:Hr; [reflexivity|].
    destruct H as [H | H]; [discriminate H|].
    rewrite H. reflexivity.
  - reflexivity.
  - intros e He. destruct e as [b sr | b sr |]; cbn [step] in He.
    + right. unfold startTuner in He.
      apply detectPitch_history_empty in He. exact He.
    + right. apply detectPitch_history_empty in He. exact He.
    + left. reflexivity.
Qed.

(** A silent frame in the middle of a session. *)
Lemma no_pitch_keeps_smoother_witness :
  state (detectPitch [0; 0; 0; 0] 44100 tuning_220) = steady_220.
Proof.
  apply (proj1 (no_pitch_keeps_smoother [0; 0; 0; 0] 44100 tuning_220)).
  left. vm_compute. reflexivity.
Defined.

End Session.

(** ** The empty frame *)

Section EmptyFrame.

Local Open Scope float_scope.

(** Over zero samples every correlation is 0/0, and the search keeps its
    initial answer. *)
Lemma search_no_samples (nb : list float) (offsets : list Z) :
  search nb 0 offsets = ((-1)%Z, 0).
Proof.
  unfold search.
  induction offsets as [|k offsets IH]; cbn [fold_left]; [reflexivity|].
  replace (search_step nb 0 ((-1)%Z, 0) k) with ((-1)%Z, 0); [exact IH|].
  unfold search_step, correlation, correlation_sum. cbn [snd].
  change (Zrange 0 0) with (@nil Z). cbn [fold_left].
  change (0 / num 0) with nan.
  rewrite ltb_nan_r. reflexivity.
Qed.

(** C8, on the code.  The empty frame raises nothing: [autoCorrelate]
    returns its ordinary "no pitch" value -1, also when every read is
    checked, and a running popup shows "Detecting..." with its smoother
    untouched. *)
Lemma empty_frame_counterexample :
  autoCorrelate [] 44100 = -1
  /\ Checked.autoCorrelate [] 44100 = Some (-1)
  /\ shown (detectPitch [] 44100 tuning_220) = Detecting
  /\ state (detectPitch [] 44100 tuning_220) = state tuning_220.
Proof.
  repeat split; vm_compute; reflexivity.
Qed.

(** C8, as the code has it.  For the empty frame the root mean square is
    0/0, NaN, which is not below 0.01: the frame passes the gate,
    [autoCorrelate] finds no lag to try and returns -1 at every sample
    rate, and [detectPitch] shows "Detecting..." and leaves the smoother
    alone. *)
Theorem empty_frame_is_no_pitch (sampleRate : float) (t : tuner) :
  isNaN (rms_of []) = true
  /\ (rms_of [] <? 0.01) = false
  /\ autoCorrelate [] sampleRate = -1
  /\ (isRunning t = true ->
      detectPitch [] sampleRate t =
      {| isRunning := true; state := state t; shown := Detecting |}).
Proof.
  assert (A : autoCorrelate [] sampleRate = -1).
  { rewrite autoCorrelate_unfold.
    change (rms_of [] <? 0.01) with false. cbv iota zeta.
    unfold best_lag. change (Z.of_nat (length (@nil float)) / 2)%Z with 0%Z.
    rewrite search_no_samples. reflexivity. }
  split; [reflexivity|]. split; [reflexivity|]. split; [exact A|].
  intros Hrun. unfold detectPitch. rewrite Hrun. cbn [negb].
  change (rms_of [] <? 0.01) with false. cbv iota.
  rewrite A. change (0 <? -1) with false. cbv iota.
  reflexivity.
Qed.

Lemma empty_frame_is_no_pitch_witness :
  detectPitch [] 48000 tuning_220 =
  {| isRunning := true; state := steady_220; shown := Detecting |}.
Proof.
  destruct (empty_frame_is_no_pitch 48000 tuning_220) as (_ & _ & _ & H).
  exact (H eq_refl).
Defined.

End EmptyFrame.

(** ** Sub-sample refinement *)

Section Refinement.

Local Open Scope float_scope.

(** The loop of the refinement computes the three sums of the search
    loop at the lags [best_offset - 1], [best_offset], [best_offset + 1]. *)
Lemma neighbours_correlation_sums (nb : list float) (M bo : Z) :
  neighbours nb M bo =
  (correlation_sum nb M (bo - 1),
   correlation_sum nb M bo,
   correlation_sum nb M (bo + 1)).
Proof.
  unfold neighbours, correlation_sum.
  generalize (Zrange 0 M) as l. generalize 0 at 1 4 as a1.
  generalize 0 at 1 3 as a2. generalize 0 as a3.
  intros a3 a2 a1 l. revert a1 a2 a3.
  induction l as [|i l IH]; intros a1 a2 a3; cbn [fold_left];
    [reflexivity|].
  rewrite IH. rewrite Z.add_sub_assoc, Z.add_assoc. reflexivity.
Qed.

Lemma refine_correlations (nb : list float) (M bo : Z) :
  refine nb M bo =
  apply_delta bo
    (parabola_delta (correlation nb M (bo - 1)) (correlation nb M bo)
                    (correlation nb M (bo + 1))).
Proof.
  unfold refine. rewrite neighbours_correlation_sums. reflexivity.
Qed.

(** C5, on a short frame.  The search window of [period_3] is clipped to
    the lags 2 and 3; the best lag, 3, is its last one and not strictly
    inside it, and [autoCorrelate] refines it all the same, to 3.1: it
    answers 2000 / 3.1 where the unrefined lag gives 2000 / 3. *)
Lemma refinement_counterexample :
  search_window period_3 2000 = [2; 3]%Z
  /\ Math_floor (2000 / MIN_FREQUENCY) = Int 24
  /\ best_lag period_3 2000 = (3%Z, 1)
  /\ Spec.strictly_interior
       (Math_floor (2000 / MAX_FREQUENCY))
       (Math_min (Math_floor (2000 / MIN_FREQUENCY)) 4) 3 = false
  /\ autoCorrelate period_3 2000 = 2000 / (3 + 0.1)
  /\ Spec.estimate_pitch period_3 2000 = 2000 / 3
  /\ autoCorrelate period_3 2000 <> Spec.estimate_pitch period_3 2000.
Proof.
  repeat split; try (vm_compute; reflexivity).
  differ_below 650.
Qed.

(** With [MAX_OFFSET] at most half the frame length, clipping changes
    nothing and the code is the estimator of the specification. *)
Lemma autoCorrelate_long_frame (buffer : list float) (sampleRate : float)
      (b : Z) :
  Math_floor (sampleRate / MIN_FREQUENCY) = Int b ->
  (b <= Z.of_nat (length buffer) / 2)%Z ->
  autoCorrelate buffer sampleRate = Spec.estimate_pitch buffer sampleRate.
Proof.
  intros Hb Hle. rewrite autoCorrelate_unfold.
  unfold Spec.estimate_pitch, best_lag, search_window, Spec.strictly_interior.
  cbv zeta. rewrite Hb. cbn [Math_min]. rewrite (Z.min_l _ _ Hle).
  destruct (rms_of buffer <? 0.01); [reflexivity|].
  destruct (search _ _ _) as [bo bc]. cbn [fst snd].
  rewrite refine_correlations. reflexivity.
Qed.

(** C5, as the code has it.  When a best lag was found with a correlation
    above 0.5, [autoCorrelate] answers [sampleRate / offset], checked
    against the band, where [offset] is refined if and only if
    [MIN_OFFSET < best_offset < MAX_OFFSET - 1], with
    [MAX_OFFSET = floor(sampleRate / 82)] as it is, not clipped to half
    the frame length.  The refined offset is [best_offset + delta] with
    [delta = 0.5 * (c1 - c3) / (c1 - 2 * c2 + c3)] from the correlations
    at [best_offset - 1], [best_offset], [best_offset + 1], provided
    [delta] is not NaN and [|delta| < 1]; in every other case it is
    [best_offset] itself.  When [MAX_OFFSET] is at most half the frame
    length this is the refinement of lags strictly inside the window. *)
Theorem autoCorrelate_refinement (buffer : list float) (sampleRate : float) :
  let nb := normalize buffer (rms_of buffer) in
  let M := (Z.of_nat (length buffer) / 2)%Z in
  let MIN_OFFSET := Math_floor (sampleRate / MAX_FREQUENCY) in
  let MAX_OFFSET := Math_floor (sampleRate / MIN_FREQUENCY) in
  let best_offset := fst (best_lag buffer sampleRate) in
  let c1 := correlation nb M (best_offset - 1) in
  let c2 := correlation nb M best_offset in
  let c3 := correlation nb M (best_offset + 1) in
  let delta := 0.5 * (c1 - c3) / (c1 - 2 * c2 + c3) in
  (rms_of buffer <? 0.01) = false ->
  (0.5 <? snd (best_lag buffer sampleRate)) = true ->
  best_offset <> (-1)%Z ->
  autoCorrelate buffer sampleRate =
    in_band
      (sampleRate /
       (if lt MIN_OFFSET (Int best_offset)
           && lt (Int best_offset) (pred MAX_OFFSET)
        then
          if negb (isNaN delta) && (Math_abs delta <? 1)
          then num best_offset + delta
          else num best_offset
        else num best_offset))
  /\ (forall b : Z,
         MAX_OFFSET = Int b -> (b <= M)%Z ->
         lt MIN_OFFSET (Int best_offset)
         && lt (Int best_offset) (pred MAX_OFFSET)
         = Spec.strictly_interior MIN_OFFSET (Math_min MAX_OFFSET M)
                                  best_offset).
Proof.
  intros nb M MIN_OFFSET MAX_OFFSET best_offset c1 c2 c3 delta Hr Hc Hb.
  split.
  - rewrite autoCorrelate_unfold. rewrite Hr. cbv zeta.
    rewrite Hc. fold best_offset.
    replace (best_offset =? -1)%Z with false
      by (symmetry; apply Z.eqb_neq; exact Hb).
    cbn [negb andb]. fold MIN_OFFSET MAX_OFFSET nb M.
    rewrite refine_correlations. reflexivity.
  - intros b Eb Hle. unfold Spec.strictly_interior.
    rewrite Eb. cbn [Math_min]. rewrite (Z.min_l _ _ Hle). reflexivity.
Qed.

Lemma autoCorrelate_refinement_witness :
  autoCorrelate muted_3 1500 = 494.50549450549454
  /\ 1500 / 3 = 500.
Proof.
  destruct (autoCorrelate_refinement muted_3 1500 eq_refl eq_refl)
    as [H _].
  - vm_compute. discriminate.
  - rewrite H. split; vm_compute; reflexivity.
Defined.

End Refinement.

(** ** Array reads *)

Section Bounds.

Local Open Scope float_scope.

Lemma In_Zrange (a b k : Z) : In k (Zrange a b) <-> (a <= k < b)%Z.
Proof.
  unfold Zrange. rewrite in_map_iff. split.
  - intros (n & <- & Hn). apply in_seq in Hn. lia.
  - intros H. exists (Z.to_nat (k - a)). split; [lia|].
    apply in_seq. lia.
Qed.

Lemma get_in_bounds (a : list float) (i : Z) :
  (0 <= i < Z.of_nat (length a))%Z -> get a i = Some (rd a i).
Proof.
  intros H. unfold rd, get.
  replace (i <? 0)%Z with false by (symmetry; apply Z.ltb_ge; lia).
  destruct (nth_error a (Z.to_nat i)) eqn:E; [reflexivity|].
  apply nth_error_None in E. lia.
Qed.

(** A loop whose body succeeds at every index of its range is the plain
    fold. *)
Lemma loop_total {A : Type} (body : A -> Z -> option A) (pure : A -> Z -> A)
      (range : list Z) (init : A) :
  (forall a i, In i range -> body a i = Some (pure a i)) ->
  Checked.loop body range init = Some (fold_left pure range init).
Proof.
  unfold Checked.loop. revert init.
  induction range as [|i range IH]; intros init H; cbn [fold_left];
    [reflexivity|].
  cbn [Checked.bind]. rewrite (H init i (or_introl eq_refl)).
  apply IH. intros a j Hj. apply H. right. exact Hj.
Qed.

(** Reading an array at all its indices, in order, gives its elements. *)
Lemma map_rd_indices (pre l : list float) :
  map (fun k => rd (pre ++ l) (Z.of_nat (length pre + k)))
      (seq 0 (length l)) = l.
Proof.
  revert pre. induction l as [|x l IH]; intros pre; [reflexivity|].
  cbn [length seq map]. f_equal.
  - unfold rd, get.
    replace (Z.of_nat (length pre + 0) <? 0)%Z with false
      by (symmetry; apply Z.ltb_ge; lia).
    rewrite Nat2Z.id, Nat.add_0_r, nth_error_app2, Nat.sub_diag by lia.
    reflexivity.
  - rewrite <- seq_shift, map_map.
    specialize (IH (pre ++ [x])).
    rewrite <- app_assoc in IH. cbn [app] in IH.
    rewrite <- IH at 2. apply map_ext. intros k.
    rewrite length_app. cbn [length]. f_equal. f_equal. lia.
Qed.

Lemma map_rd_Zrange (l : list float) :
  map (rd l) (Zrange 0 (Z.of_nat (length l))) = l.
Proof.
  unfold Zrange. rewrite map_map, Z.sub_0_r, Nat2Z.id.
  exact (map_rd_indices [] l).
Qed.

Lemma fold_left_indices {A : Type} (f : A -> float -> A) (l : list float)
      (init : A) :
  fold_left (fun acc i => f acc (rd l i)) (Zrange 0 (Z.of_nat (length l))) init
  = fold_left f l init.
Proof.
  transitivity
    (fold_left f (map (rd l) (Zrange 0 (Z.of_nat (length l)))) init);
    [|rewrite map_rd_Zrange; reflexivity].
  generalize (Zrange 0 (Z.of_nat (length l))) as range. intros range.
  revert init. induction range as [|i range IH]; intros init;
    cbn [map fold_left]; [reflexivity|apply IH].
Qed.

Lemma rms_of_checked (buffer : list float) :
  Checked.rms_of buffer = Some (rms_of buffer).
Proof.
  unfold Checked.rms_of. cbv zeta.
  rewrite (loop_total _ (fun rms i => rms + rd buffer i * rd buffer i)).
  - cbn [Checked.bind]. unfold rms_of, sum_squares.
    rewrite (fold_left_indices (fun sum val => sum + val * val)).
    reflexivity.
  - intros a i Hi. apply In_Zrange in Hi.
    rewrite get_in_bounds by lia. reflexivity.
Qed.

Lemma fold_left_snoc_map (g : float -> float) (l acc : list float) :
  fold_left (fun out v => out ++ [g v]) l acc = acc ++ map g l.
Proof.
  revert acc. induction l as [|x l IH]; intros acc; cbn [fold_left map].
  - rewrite app_nil_r. reflexivity.
  - rewrite IH, <- app_assoc. reflexivity.
Qed.

Lemma normalize_checked (buffer : list float) (rms : float) :
  Checked.normalize buffer rms = Some (normalize buffer rms).
Proof.
  unfold Checked.normalize.
  rewrite (loop_total _ (fun out i => out ++ [fround (rd buffer i / rms)])).
  - rewrite (fold_left_indices (fun out v => out ++ [fround (v / rms)])).
    rewrite fold_left_snoc_map. reflexivity.
  - intros a i Hi. apply In_Zrange in Hi.
    rewrite get_in_bounds by lia. reflexivity.
Qed.

Lemma normalize_length (buffer : list float) (rms : float) :
  length (normalize buffer rms) = length buffer.
Proof. apply length_map. Qed.

(** A lag between 0 and half the length keeps both reads inside. *)
Lemma correlation_checked (nb : list float) (n : nat) (offset : Z) :
  length nb = n ->
  (0 <= offset <= Z.of_nat n / 2)%Z ->
  Checked.correlation nb (Z.of_nat n / 2) offset =
  Some (correlation nb (Z.of_nat n / 2) offset).
Proof.
  intros <- H. unfold Checked.correlation.
  pose proof (Z.mul_div_le (Z.of_nat (length nb)) 2 eq_refl) as D.
  rewrite (loop_total _ (fun c i => c + rd nb i * rd nb (i + offset))).
  - reflexivity.
  - intros a i Hi. apply In_Zrange in Hi.
    rewrite !get_in_bounds by lia. reflexivity.
Qed.

Lemma search_checked (nb : list float) (n : nat) (offsets : list Z) :
  length nb = n ->
  (forall k, In k offsets -> (0 <= k <= Z.of_nat n / 2)%Z) ->
  Checked.search nb (Z.of_nat n / 2) offsets =
  Some (search nb (Z.of_nat n / 2) offsets).
Proof.
  intros L H. unfold Checked.search, search.
  apply loop_total. intros best k Hk.
  rewrite (correlation_checked nb n k L) by (apply H; exact Hk).
  reflexivity.
Qed.

Lemma neighbours_checked (nb : list float) (n : nat) (bo : Z) :
  length nb = n ->
  (1 <= bo < Z.of_nat n / 2)%Z ->
  Checked.neighbours nb (Z.of_nat n / 2) bo =
  Some (neighbours nb (Z.of_nat n / 2) bo).
Proof.
  intros <- H. unfold Checked.neighbours, neighbours.
  pose proof (Z.mul_div_le (Z.of_nat (length nb)) 2 eq_refl) as D.
  apply loop_total. intros [[c1 c2] c3] i Hi. apply In_Zrange in Hi.
  rewrite !get_in_bounds by lia. reflexivity.
Qed.

(** The search returns its initial answer or a lag it was given. *)
Lemma search_lag (nb : list float) (M : Z) (offsets : list Z) :
  fst (search nb M offsets) = (-1)%Z \/ In (fst (search nb M offsets)) offsets.
Proof.
  unfold search.
  enough (G : forall best,
             fst (fold_left (search_step nb M) offsets best) = fst best
             \/ In (fst (fold_left (search_step nb M) offsets best)) offsets)
    by (destruct (G ((-1)%Z, 0)) as [E | I]; auto).
  induction offsets as [|k offsets IH]; intros best; cbn [fold_left];
    [left; reflexivity|].
  destruct (IH (search_step nb M best k)) as [E | I].
  - rewrite E. unfold search_step.
    destruct (snd best <? correlation nb M k); cbn [fst];
      [right; left; reflexivity | left; reflexivity].
  - right. right. exact I.
Qed.

End Bounds.

(** ** Lags are never negative *)

Section Signs.

Local Open Scope float_scope.

Lemma binary_round_aux_sign (p emx : Z) (sx : bool) (mx ex : Z)
      (lx : location) :
  match binary_round_aux p emx sx mx ex lx with
  | S754_finite s _ _ => s = sx
  | _ => True
  end.
Proof.
  unfold binary_round_aux.
  destruct (shr_fexp p emx mx ex lx) as [mrs' e'].
  destruct (shr_fexp p emx _ e' loc_Exact) as [mrs'' e''].
  destruct (shr_m mrs''); try exact I.
  destruct (e'' <=? emx - p)%Z; [reflexivity|exact I].
Qed.

(** A finite quotient of a number that is not negative by a positive one
    has a nonnegative integer part. *)
Lemma Math_floor_quotient (x c : float) (mc : positive) (ec a : Z) :
  (x <? 0) = false ->
  Prim2SF c = S754_finite false mc ec ->
  Math_floor (x / c) = Int a ->
  (0 <= a)%Z.
Proof.
  intros Hx Hc. unfold Math_floor. rewrite div_spec, Hc.
  rewrite ltb_spec in Hx. change (Prim2SF 0) with (S754_zero false) in Hx.
  unfold SFltb in Hx.
  destruct (Prim2SF x) as [sx | sx | | sx mx ex].
  - cbn. intros E. injection E as <-. lia.
  - cbn. destruct (xorb sx false); discriminate.
  - cbn. discriminate.
  - destruct sx; [cbn in Hx; discriminate Hx|].
    unfold SF64div, SFdiv.
    destruct (SFdiv_core_binary prec emax (Z.pos mx) ex (Z.pos mc) ec)
      as [[mz ez] lz].
    pose proof (binary_round_aux_sign prec emax (xorb false false) mz ez lz)
      as S.
    destruct (binary_round_aux prec emax (xorb false false) mz ez lz)
      as [s | s | | s m e].
    + intros E. injection E as <-. lia.
    + destruct s; discriminate.
    + discriminate.
    + cbn in S. subst s. intros E. injection E as <-.
      cbn [cond_Zopp]. apply Z.shiftl_nonneg. lia.
Qed.

Lemma MIN_OFFSET_nonneg (sampleRate : float) (a : Z) :
  (sampleRate <? 0) = false ->
  Math_floor (sampleRate / MAX_FREQUENCY) = Int a ->
  (0 <= a)%Z.
Proof.
  intros H. eapply Math_floor_quotient; [exact H|].
  vm_compute. reflexivity.
Qed.

End Signs.

Section ReadsInBounds.

Local Open Scope float_scope.

(** The window stops below half the frame length, at every sample rate;
    it starts at 0 or above when the sample rate is not negative. *)
Lemma search_window_upper (buffer : list float) (sampleRate : float) (k : Z) :
  In k (search_window buffer sampleRate) ->
  (k < Z.of_nat (length buffer) / 2)%Z.
Proof.
  unfold search_window, for_range.
  destruct (Math_floor (sampleRate / MAX_FREQUENCY)) as [a | | |];
    try contradiction.
  destruct (Math_floor (sampleRate / MIN_FREQUENCY)) as [b | | |];
    cbn [Math_min]; try contradiction;
    intros H; apply In_Zrange in H; lia.
Qed.

Lemma search_window_lower (buffer : list float) (sampleRate : float) (k : Z) :
  (sampleRate <? 0) = false ->
  In k (search_window buffer sampleRate) ->
  exists a, Math_floor (sampleRate / MAX_FREQUENCY) = Int a
            /\ (0 <= a <= k)%Z.
Proof.
  intros Hs. unfold search_window, for_range.
  destruct (Math_floor (sampleRate / MAX_FREQUENCY)) as [a | | |] eqn:Ea;
    try contradiction.
  pose proof (MIN_OFFSET_nonneg sampleRate a Hs Ea) as Ha.
  destruct (Math_min _ _) as [b | | |]; try contradiction.
  intros H. apply In_Zrange in H. exists a. split; [reflexivity|lia].
Qed.

Lemma best_lag_in_window (buffer : list float) (sampleRate : float) :
  fst (best_lag buffer sampleRate) <> (-1)%Z ->
  In (fst (best_lag buffer sampleRate)) (search_window buffer sampleRate).
Proof.
  intros Hne. unfold best_lag in *.
  destruct (search_lag (normalize buffer (rms_of buffer))
              (Z.of_nat (length buffer) / 2)
              (search_window buffer sampleRate)) as [E | I];
    [contradiction|exact I].
Qed.

(** C10.  In a frame of any length [N] and at any sample rate, at every
    lag the search visits and every [i] below [floor(N / 2)] the index
    [i + offset] is below [N], and so is [i + best_offset + 1] in the
    refinement.  Unless the sample rate is negative, no index is negative
    either, [i + best_offset - 1] in the refinement included, and the
    estimator with checked reads never stops on a read: it returns what
    [autoCorrelate] returns. *)
Theorem autoCorrelate_reads_in_bounds
        (buffer : list float) (sampleRate : float) :
  let N := Z.of_nat (length buffer) in
  let best_offset := fst (best_lag buffer sampleRate) in
  (forall offset i : Z,
      In offset (search_window buffer sampleRate) ->
      (0 <= i < N / 2)%Z ->
      (i < N /\ i + offset < N)%Z)
  /\ (forall i : Z,
         best_offset <> (-1)%Z ->
         (0 <= i < N / 2)%Z ->
         (i + best_offset + 1 < N)%Z)
  /\ ((sampleRate <? 0) = false ->
      (forall offset i : Z,
          In offset (search_window buffer sampleRate) ->
          (0 <= i < N / 2)%Z ->
          (0 <= i + offset)%Z)
      /\ (forall i : Z,
             best_offset <> (-1)%Z ->
             lt (Math_floor (sampleRate / MAX_FREQUENCY)) (Int best_offset)
             = true ->
             (0 <= i < N / 2)%Z ->
             (0 <= i + best_offset - 1)%Z)
      /\ Checked.autoCorrelate buffer sampleRate
         = Some (autoCorrelate buffer sampleRate)).
Proof.
  intros N best_offset. unfold N, best_offset. clear N best_offset.
  pose proof (Z.mul_div_le (Z.of_nat (length buffer)) 2 eq_refl) as D.
  split; [|split].
  { intros k i Hk Hi. apply search_window_upper in Hk. lia. }
  { intros i Hne Hi.
    pose proof (search_window_upper buffer sampleRate _
                  (best_lag_in_window buffer sampleRate Hne)). lia. }
  intros Hs.
  assert (W : forall k, In k (search_window buffer sampleRate) ->
                        (0 <= k < Z.of_nat (length buffer) / 2)%Z).
  { intros k Hk. split.
    - destruct (search_window_lower buffer sampleRate k Hs Hk)
        as (a & _ & Ha). lia.
    - apply (search_window_upper buffer sampleRate k Hk). }
  assert (B : fst (best_lag buffer sampleRate) <> (-1)%Z ->
              lt (Math_floor (sampleRate / MAX_FREQUENCY))
                 (Int (fst (best_lag buffer sampleRate))) = true ->
              (1 <= fst (best_lag buffer sampleRate)
               < Z.of_nat (length buffer) / 2)%Z).
  { intros Hne Hlt.
    pose proof (best_lag_in_window buffer sampleRate Hne) as I.
    destruct (search_window_lower buffer sampleRate _ Hs I)
      as (a & Ea & Ha).
    rewrite Ea in Hlt. cbn [lt] in Hlt. apply Z.ltb_lt in Hlt.
    pose proof (search_window_upper buffer sampleRate _ I). lia. }
  split; [|split].
  - intros k i Hk Hi. specialize (W k Hk). lia.
  - intros i Hne Hlt Hi. specialize (B Hne Hlt). lia.
  - unfold Checked.autoCorrelate. cbv zeta.
    rewrite rms_of_checked. cbn [Checked.bind].
    rewrite autoCorrelate_unfold.
    destruct (rms_of buffer <? 0.01); [reflexivity|].
    rewrite normalize_checked. cbn [Checked.bind]. cbv zeta.
    unfold best_lag in *. fold (search_window buffer sampleRate).
    set (nb := normalize buffer (rms_of buffer)) in *.
    assert (L : length nb = length buffer) by apply normalize_length.
    rewrite (search_checked nb (length buffer) _ L)
      by (intros k Hk; specialize (W k Hk); lia).
    cbn [Checked.bind].
    destruct (search nb (Z.of_nat (length buffer) / 2)
                     (search_window buffer sampleRate)) as [bo bc].
    cbn [fst snd] in *.
    destruct (0.5 <? bc); cbn [andb]; [|reflexivity].
    destruct (bo =? -1)%Z eqn:Ene; cbn [negb]; [reflexivity|].
    apply Z.eqb_neq in Ene.
    destruct (lt (Math_floor (sampleRate / MAX_FREQUENCY)) (Int bo)) eqn:Hlt;
      cbn [andb]; [|reflexivity].
    destruct (lt (Int bo) (pred (Math_floor (sampleRate / MIN_FREQUENCY))));
      [|reflexivity].
    unfold Checked.refine.
    rewrite (neighbours_checked nb (length buffer) bo L)
      by (apply B; [assumption|reflexivity]).
    unfold refine.
    destruct (neighbours nb (Z.of_nat (length buffer) / 2) bo)
      as [[s1 s2] s3].
    reflexivity.
Qed.

(** The frame [muted_3] at 1500 samples per second, refinement included. *)
Lemma autoCorrelate_reads_in_bounds_witness :
  Checked.autoCorrelate muted_3 1500 = Some (autoCorrelate muted_3 1500).
Proof.
  destruct (autoCorrelate_reads_in_bounds muted_3 1500) as (_ & _ & H).
  exact (proj2 (proj2 (H eq_refl))).
Defined.

End ReadsInBounds.

(** ** Notes and cents *)

Section Notes.

Import NoteMapper.
Local Open Scope R_scope.

















End Notes.

(** * Further properties of the code *)

Import Invariants.

(** ** The order of doubles, continued *)

Section FloatOrderMore.

Local Open Scope float_scope.

Lemma SFltb_trans (x y z : spec_float) :
  SFltb x y = true -> SFltb y z = true -> SFltb x z = true.
Proof.
  unfold SFltb.
  destruct x as [sx | sx | | sx mx ex], y as [sy | sy | | sy my ey],
           z as [sz | sz | | sz mz ez];
    cbn; try discriminate; try reflexivity;
    try (destruct sx; try destruct sy; try destruct sz; cbn; congruence).
  destruct sx, sy, sz; try discriminate; try reflexivity;
    rewrite ?Pos.compare_cont_spec; unfold Pos.switch_Eq;
    destruct (Z.compare_spec ex ey), (Z.compare_spec ey ez),
             (Z.compare_spec ex ez);
    try discriminate; try reflexivity; try lia; subst;
    destruct (Pos.compare_spec mx my), (Pos.compare_spec my mz),
             (Pos.compare_spec mx mz);
    cbn; try discriminate; try reflexivity; try lia.
Qed.

Lemma ltb_trans (x y z : float) :
  (x <? y) = true -> (y <? z) = true -> (x <? z) = true.
Proof. rewrite !ltb_spec. apply SFltb_trans. Qed.

Lemma ltb_irrefl (x : float) : (x <? x) = false.
Proof.
  destruct (x <? x) eqn:E; [|reflexivity].
  assert (L : (x <=? x) = true).
  { rewrite leb_spec. rewrite ltb_spec in E. unfold SFleb, SFltb in *.
    destruct (SFcompare (Prim2SF x) (Prim2SF x)) as [[| |]|];
      congruence. }
  apply leb_not_ltb in L. congruence.
Qed.

(** From 82 upwards a number is above zero. *)
Lemma above_MIN_FREQUENCY_positive (f : float) :
  (MIN_FREQUENCY <=? f) = true -> (0 <? f) = true.
Proof.
  rewrite leb_spec, ltb_spec.
  change (Prim2SF 0) with (S754_zero false).
  replace (Prim2SF MIN_FREQUENCY)
    with (S754_finite false 5770237022568448 (-46)) by reflexivity.
  unfold SFleb, SFltb.
  destruct (Prim2SF f) as [s | s | | s m e]; cbn; try discriminate.
  - destruct s; [discriminate|reflexivity].
  - destruct s; [discriminate|reflexivity].
Qed.

End FloatOrderMore.

(** ** The search finds the best lag *)

Section SearchBest.

Local Open Scope float_scope.

Lemma search_step_best (nb : list float) (M : Z) (visited : list Z)
      (best : Z * float) (k : Z) :
  best_so_far nb M visited best ->
  best_so_far nb M (visited ++ [k]) (search_step nb M best k).
Proof.
  intros [Hshape Hmax]. unfold search_step.
  destruct (snd best <? correlation nb M k) eqn:E.
  - split.
    + right. cbn [fst snd]. repeat split.
      * apply in_or_app. right. left. reflexivity.
      * destruct Hshape as [-> | (_ & _ & Hpos)].
        -- exact E.
        -- exact (ltb_trans _ _ _ Hpos E).
    + intros j Hj. cbn [snd]. apply in_app_or in Hj.
      destruct Hj as [Hj | [<- | []]]; [|apply ltb_irrefl].
      destruct (correlation nb M k <? correlation nb M j) eqn:E2;
        [|reflexivity].
      rewrite <- (Hmax j Hj). symmetry. exact (ltb_trans _ _ _ E E2).
  - split.
    + destruct Hshape as [-> | (Hin & Hc & Hpos)]; [left; reflexivity|].
      right. repeat split; try assumption.
      apply in_or_app. left. exact Hin.
    + intros j Hj. apply in_app_or in Hj.
      destruct Hj as [Hj | [<- | []]]; [apply Hmax; exact Hj|exact E].
Qed.

Lemma search_best (nb : list float) (M : Z) (offsets : list Z) :
  best_so_far nb M offsets (search nb M offsets).
Proof.
  unfold search.
  enough (G : forall visited best,
             best_so_far nb M visited best ->
             best_so_far nb M (visited ++ offsets)
                         (fold_left (search_step nb M) offsets best)).
  { apply (G [] ((-1)%Z, 0)). split; [left; reflexivity|].
    intros k []. }
  induction offsets as [|k offsets IH]; intros visited best H;
    cbn [fold_left].
  - rewrite app_nil_r. exact H.
  - replace (visited ++ k :: offsets) with ((visited ++ [k]) ++ offsets)
      by (rewrite <- app_assoc; reflexivity).
    apply IH. apply search_step_best. exact H.
Qed.

(** X1.  The search of [autoCorrelate] returns its initial answer (-1, 0)
    or a lag of the window with the correlation at that lag, which is
    above 0; and no lag of the window has a correlation above the one
    returned. *)
Theorem best_lag_is_best (buffer : list float) (sampleRate : float) :
  let nb := normalize buffer (rms_of buffer) in
  let M := (Z.of_nat (length buffer) / 2)%Z in
  let best := best_lag buffer sampleRate in
  (best = ((-1)%Z, 0)
   \/ (In (fst best) (search_window buffer sampleRate)
       /\ snd best = correlation nb M (fst best)
       /\ (0 <? snd best) = true))
  /\ forall offset,
       In offset (search_window buffer sampleRate) ->
       (snd best <? correlation nb M offset) = false.
Proof.
  exact (search_best (normalize buffer (rms_of buffer))
                     (Z.of_nat (length buffer) / 2)
                     (search_window buffer sampleRate)).
Qed.

End SearchBest.

(** ** What [autoCorrelate] hands to its caller *)

Section Answers.

Local Open Scope float_scope.

Lemma autoCorrelate_cases (buffer : list float) (sampleRate : float) :
  autoCorrelate buffer sampleRate = -1
  \/ ((MIN_FREQUENCY <=? autoCorrelate buffer sampleRate) = true
      /\ (autoCorrelate buffer sampleRate <=? MAX_FREQUENCY) = true).
Proof.
  rewrite autoCorrelate_unfold. cbv zeta.
  destruct (rms_of buffer <? 0.01); [auto|].
  destruct ((0.5 <? snd (best_lag buffer sampleRate))
            && negb (fst (best_lag buffer sampleRate) =? -1)%Z); [|auto].
  match goal with |- context [in_band ?f] =>
    destruct (in_band_cases f) as [E | (E & Hlo & Hhi)]; rewrite E
  end; auto.
Qed.

(** The test [frequency > 0] of [detectPitch] tells -1 from a pitch. *)
Lemma pitch_found_iff (buffer : list float) (sampleRate : float) :
  (0 <? autoCorrelate buffer sampleRate) = true
  <-> autoCorrelate buffer sampleRate <> -1.
Proof.
  split.
  - intros H E. rewrite E in H. discriminate H.
  - intros H. destruct (autoCorrelate_cases buffer sampleRate)
      as [E | [Hlo _]]; [contradiction|].
    apply above_MIN_FREQUENCY_positive. exact Hlo.
Qed.

Lemma no_signal_no_pitch (buffer : list float) (sampleRate : float) :
  (rms_of buffer <? 0.01) = true -> autoCorrelate buffer sampleRate = -1.
Proof.
  intros H. rewrite autoCorrelate_unfold, H. reflexivity.
Qed.

(** X2.  A running popup shows a reading exactly when [autoCorrelate]
    answers a frequency rather than -1, and the reading is then what the
    smoother makes of that frequency; otherwise it shows "No signal" or
    "Detecting..." and keeps its smoother. *)
Theorem reading_iff_pitch (buffer : list float) (sampleRate : float)
        (t : tuner) :
  isRunning t = true ->
  (autoCorrelate buffer sampleRate <> -1 ->
   shown (detectPitch buffer sampleRate t)
   = Reading (fst (smoothFrequency (autoCorrelate buffer sampleRate)
                                   (state t)))
   /\ state (detectPitch buffer sampleRate t)
      = snd (smoothFrequency (autoCorrelate buffer sampleRate) (state t)))
  /\ (autoCorrelate buffer sampleRate = -1 ->
      (shown (detectPitch buffer sampleRate t) = NoSignal
       \/ shown (detectPitch buffer sampleRate t) = Detecting)
      /\ state (detectPitch buffer sampleRate t) = state t).
Proof.
  intros Hrun. unfold detectPitch. rewrite Hrun. cbn [negb].
  split.
  - intros Hne.
    destruct (rms_of buffer <? 0.01) eqn:Hr.
    + elim Hne. apply no_signal_no_pitch. exact Hr.
    + apply pitch_found_iff in Hne. rewrite Hne.
      destruct (smoothFrequency _ _) as [out s']. split; reflexivity.
  - intros E.
    destruct (rms_of buffer <? 0.01); [split; [left|]; reflexivity|].
    rewrite E. change (0 <? -1) with false. cbv iota.
    split; [right|]; reflexivity.
Qed.

Lemma reading_iff_pitch_witness :
  shown (detectPitch period_2 2000 tuning_220) = Reading 220.
Proof.
  destruct (reading_iff_pitch period_2 2000 tuning_220 eq_refl) as [H _].
  destruct H as [H _].
  - differ_below 0.
  - rewrite H. vm_compute. reflexivity.
Defined.

End Answers.

(** ** The history over a session *)

Section HistoryWindow.

Local Open Scope float_scope.

Lemma fed_snoc (readings : list float) (F : float) :
  fed (readings ++ [F]) = snd (smoothFrequency F (fed readings)).
Proof. unfold fed. rewrite fold_left_app. reflexivity. Qed.

Lemma tl_skipn {A : Type} (k : nat) (l : list A) :
  tl (skipn k l) = skipn (S k) l.
Proof.
  revert l. induction k as [|k IH]; intros [|x l];
    cbn [skipn tl]; try reflexivity.
  apply IH.
Qed.

(** X3.  Fed one reading after the other from the cleared state, the
    smoother keeps as its history the last five readings, in the order in
    which they came (all of them while there are at most five). *)
Theorem history_is_last_five (readings : list float) :
  frequencyHistory (fed readings)
  = skipn (length readings - 5) readings.
Proof.
  induction readings as [|F readings IH] using rev_ind; [reflexivity|].
  rewrite fed_snoc. unfold smoothFrequency. cbn [snd frequencyHistory].
  rewrite IH.
  assert (L : (length (skipn (length readings - 5) readings) <= 5)%nat)
    by (rewrite length_skipn; lia).
  rewrite (push_history_shape _ F L). rewrite length_app. cbn [length].
  rewrite length_skipn. unfold HISTORY_SIZE.
  destruct (length readings - (length readings - 5) =? 5)%nat eqn:E.
  - apply Nat.eqb_eq in E.
    rewrite tl_skipn.
    replace (length readings + 1 - 5)%nat
      with (S (length readings - 5)) by lia.
    rewrite skipn_app.
    replace (S (length readings - 5) - length readings)%nat with 0%nat
      by lia.
    reflexivity.
  - apply Nat.eqb_neq in E.
    replace (length readings - 5)%nat with 0%nat by lia.
    replace (length readings + 1 - 5)%nat with 0%nat by lia.
    reflexivity.
Qed.

End HistoryWindow.

(** ** Stopping and starting again *)

Section Restart.

Local Open Scope float_scope.

Lemma stopTuner_initial (t : tuner) : stopTuner t = initial.
Proof. reflexivity. Qed.

(** X4.  Once stopped, the popup ignores every frame that is still
    delivered: whatever it was doing before, after Stop it is the page as
    loaded, and it stays so until Start is clicked. *)
Theorem stopped_ignores_frames (t : tuner) (es : list event) :
  Forall not_start es ->
  run (step t Stop) es = initial.
Proof.
  intros H. cbn [step]. rewrite stopTuner_initial.
  induction H as [|e es He _ IH]; [reflexivity|].
  cbn [run fold_left]. destruct e as [b sr | b sr |]; [destruct He| |];
    exact IH.
Qed.

Lemma stopped_ignores_frames_witness :
  run (step tuning_220 Stop) [Frame period_2 2000; Stop; Frame period_3 2000]
  = initial.
Proof.
  apply stopped_ignores_frames. repeat constructor.
Defined.



End Restart.

(** ** Only frequencies of the band are remembered *)

Section HistoryInBand.

Local Open Scope float_scope.

Lemma push_history_Forall (P : float -> Prop) (h : list float) (F : float) :
  Forall P h -> P F -> Forall P (push_history h F).
Proof.
  intros Hh HF. unfold push_history.
  assert (A : Forall P (h ++ [F]))
    by (apply Forall_app; split; [exact Hh|repeat constructor; exact HF]).
  destruct (HISTORY_SIZE <? length (h ++ [F]))%nat; [|exact A].
  destruct (h ++ [F]); [constructor|].
  inversion A; assumption.
Qed.

Lemma detectPitch_within_band (buffer : list float) (sampleRate : float)
      (t : tuner) :
  Forall within_band (frequencyHistory (state t)) ->
  Forall within_band
         (frequencyHistory (state (detectPitch buffer sampleRate t))).
Proof.
  intros H. unfold detectPitch.
  destruct (negb (isRunning t)); [exact H|].
  destruct (rms_of buffer <? 0.01); [exact H|].
  destruct (0 <? autoCorrelate buffer sampleRate) eqn:E; [|exact H].
  unfold smoothFrequency. cbn [state frequencyHistory].
  apply push_history_Forall; [exact H|].
  destruct (autoCorrelate_cases buffer sampleRate) as [E1 | B];
    [|exact B].
  rewrite E1 in E. discriminate E.
Qed.

(** X6.  Whatever happens to the popup, its history only ever holds
    frequencies [f] with 82 <= f <= 1000. *)
Theorem history_within_band (es : list event) :
  Forall within_band (frequencyHistory (state (run initial es))).
Proof.
  unfold run.
  enough (G : forall t,
             Forall within_band (frequencyHistory (state t)) ->
             Forall within_band
                    (frequencyHistory (state (fold_left step es t))))
    by (apply G; constructor).
  induction es as [|e es IH]; intros t H; cbn [fold_left]; [exact H|].
  apply IH. destruct e as [b sr | b sr |]; cbn [step].
  - unfold startTuner. apply detectPitch_within_band. exact H.
  - apply detectPitch_within_band. exact H.
  - constructor.
Qed.

(** X7.  After a large jump (the ratio to the last frequency in no octave
    band and not a normal variation) the smoother returns one of the raw
    readings of its history, the new one included; with a history and a
    new reading between 82 and 1000, so is the value returned. *)
Theorem large_jump_returns_a_reading (s : smoother) (F : float) :
  (0 <? lastFrequency s) = true ->
  octave_suspect (F / lastFrequency s) = false ->
  normal_variation (F / lastFrequency s) = false ->
  In (fst (smoothFrequency F s)) (push_history (frequencyHistory s) F)
  /\ (Forall within_band (frequencyHistory s) -> within_band F ->
      within_band (fst (smoothFrequency F s))).
Proof.
  intros HL Hoct Hnorm.
  assert (I : In (fst (smoothFrequency F s))
                 (push_history (frequencyHistory s) F)).
  { rewrite (smoothFrequency_large_jump s F HL Hoct Hnorm). cbv zeta.
    set (history := push_history (frequencyHistory s) F).
    destruct (3 <=? length history)%nat eqn:E.
    - apply Nat.leb_le in E. unfold middle_of_sorted. cbv zeta.
      apply (Permutation_in _ (sort_numeric_perm history)).
      apply nth_In.
      rewrite (Permutation_length (sort_numeric_perm history)).
      apply Nat.div_lt; lia.
    - destruct (push_history_last (frequencyHistory s) F) as [front Hf].
      unfold history. rewrite Hf. apply in_or_app. right. left.
      reflexivity. }
  split; [exact I|].
  intros Hh HF.
  pose proof (push_history_Forall within_band _ F Hh HF) as A.
  rewrite Forall_forall in A. apply A. exact I.
Qed.

Lemma large_jump_returns_a_reading_witness :
  In (fst (smoothFrequency 700 (fed [220; 221; 219; 220; 222])))
     [221; 219; 220; 222; 700].
Proof.
  exact (proj1 (large_jump_returns_a_reading
                  (fed [220; 221; 219; 220; 222]) 700
                  eq_refl eq_refl eq_refl)).
Defined.

End HistoryInBand.

(** ** What the popup draws *)

Section NotesMore.

Import NoteMapper Display.
Local Open Scope R_scope.

































End NotesMore.

(** ** Silence and corrupted frames *)

Section Poisoned.

Local Open Scope float_scope.

Lemma Prim2SF_nan_eq (x : float) : Prim2SF x = S754_nan -> x = nan.
Proof.
  intros H. rewrite <- (SF2Prim_Prim2SF x), H. reflexivity.
Qed.

Lemma add_nan_r (x : float) : x + nan = nan.
Proof.
  apply Prim2SF_nan_eq. rewrite add_spec.
  change (Prim2SF nan) with S754_nan.
  destruct (Prim2SF x) as [s | s | | s m e]; reflexivity.
Qed.

Lemma add_nan_l (x : float) : nan + x = nan.
Proof.
  apply Prim2SF_nan_eq. rewrite add_spec.
  change (Prim2SF nan) with S754_nan. reflexivity.
Qed.

Lemma mul_nan_l (x : float) : nan * x = nan.
Proof.
  apply Prim2SF_nan_eq. rewrite mul_spec.
  change (Prim2SF nan) with S754_nan. reflexivity.
Qed.

Lemma div_nan_r (x : float) : x / nan = nan.
Proof.
  apply Prim2SF_nan_eq. rewrite div_spec.
  change (Prim2SF nan) with S754_nan.
  destruct (Prim2SF x) as [s | s | | s m e]; reflexivity.
Qed.

Lemma div_nan_l (x : float) : nan / x = nan.
Proof.
  apply Prim2SF_nan_eq. rewrite div_spec.
  change (Prim2SF nan) with S754_nan. reflexivity.
Qed.

Lemma SFcompare_refl (x : spec_float) :
  x <> S754_nan -> SFcompare x x = Some Eq.
Proof.
  destruct x as [s | s | | s m e]; intros H; cbn.
  - reflexivity.
  - destruct s; reflexivity.
  - contradiction.
  - destruct s; rewrite Z.compare_refl, Pos.compare_cont_refl; reflexivity.
Qed.

(** [isNaN] holds of NaN only. *)
Lemma isNaN_eq (x : float) : isNaN x = true -> x = nan.
Proof.
  unfold isNaN, is_nan. rewrite eqb_spec. unfold SFeqb. intros H.
  apply Prim2SF_nan_eq.
  destruct (Prim2SF x) as [s | s | | s m e] eqn:E; try reflexivity;
    rewrite SFcompare_refl in H by discriminate; discriminate H.
Qed.

Lemma normalize_nan (buffer : list float) :
  normalize buffer nan = repeat nan (length buffer).
Proof.
  unfold normalize. induction buffer as [|v buffer IH]; [reflexivity|].
  cbn [map length repeat]. rewrite IH, div_nan_r. reflexivity.
Qed.

Lemma rd_repeat_nan (n : nat) (i : Z) : rd (repeat nan n) i = nan.
Proof.
  unfold rd, get. destruct (i <? 0)%Z; [reflexivity|].
  destruct (nth_error (repeat nan n) (Z.to_nat i)) as [v|] eqn:E;
    [|reflexivity].
  apply nth_error_In, repeat_spec in E. exact E.
Qed.

Lemma correlation_repeat_nan (n : nat) (M k : Z) :
  (0 <= M)%Z -> correlation (repeat nan n) M k = nan.
Proof.
  intros HM. unfold correlation, correlation_sum.
  destruct (Zrange 0 M) as [|i range] eqn:E.
  - assert (M = 0)%Z.
    { unfold Zrange in E. rewrite Z.sub_0_r in E.
      destruct (Z.to_nat M) eqn:EM; [lia|discriminate E]. }
    subst M. reflexivity.
  - cbn [fold_left]. rewrite !rd_repeat_nan.
    change (0 + nan * nan) with nan.
    assert (F : fold_left
                  (fun c j => c + rd (repeat nan n) j
                                  * rd (repeat nan n) (j + k))
                  range nan = nan).
    { clear E. induction range as [|j range' IH]; [reflexivity|].
      cbn [fold_left]. rewrite add_nan_l. exact IH. }
    rewrite F. apply div_nan_l.
Qed.

Lemma search_repeat_nan (n : nat) (M : Z) (offsets : list Z) :
  (0 <= M)%Z -> search (repeat nan n) M offsets = ((-1)%Z, 0).
Proof.
  intros HM. unfold search.
  induction offsets as [|k offsets IH]; cbn [fold_left]; [reflexivity|].
  replace (search_step (repeat nan n) M ((-1)%Z, 0) k) with ((-1)%Z, 0);
    [exact IH|].
  unfold search_step. rewrite (correlation_repeat_nan n M k HM).
  rewrite ltb_nan_r. reflexivity.
Qed.

(** A frame whose root mean square is NaN is answered -1. *)
Lemma nan_rms_no_pitch (buffer : list float) (sampleRate : float) :
  rms_of buffer = nan -> autoCorrelate buffer sampleRate = -1.
Proof.
  intros H. rewrite autoCorrelate_unfold, H.
  change (nan <? 0.01) with false. cbv iota zeta.
  unfold best_lag. rewrite H, normalize_nan, search_repeat_nan.
  - reflexivity.
  - apply Z.div_pos; lia.
Qed.

Lemma sum_squares_nan_acc (l : list float) :
  fold_left (fun sum val => sum + val * val) l nan = nan.
Proof.
  induction l as [|v l IH]; [reflexivity|].
  cbn [fold_left]. rewrite add_nan_l. exact IH.
Qed.

Lemma sum_squares_poisoned (buffer : list float) :
  In nan buffer -> sum_squares buffer = nan.
Proof.
  unfold sum_squares. generalize 0 as acc.
  induction buffer as [|v buffer IH]; intros acc H; [destruct H|].
  cbn [fold_left]. destruct H as [-> | H].
  - rewrite mul_nan_l, add_nan_r. apply sum_squares_nan_acc.
  - apply IH. exact H.
Qed.

(** X15.  A frame in which one sample is NaN is never given a pitch:
    [autoCorrelate] answers -1, and the popup keeps its smoother. *)
Theorem poisoned_frame_no_pitch (buffer : list float) (sampleRate : float)
        (t : tuner) :
  In nan buffer ->
  autoCorrelate buffer sampleRate = -1
  /\ state (detectPitch buffer sampleRate t) = state t.
Proof.
  intros H.
  assert (A : autoCorrelate buffer sampleRate = -1).
  { apply nan_rms_no_pitch. unfold rms_of.
    rewrite (sum_squares_poisoned buffer H), div_nan_l. reflexivity. }
  split; [exact A|].
  unfold detectPitch. destruct (negb (isRunning t)); [reflexivity|].
  destruct (rms_of buffer <? 0.01); [reflexivity|].
  rewrite A. reflexivity.
Qed.

Lemma poisoned_frame_no_pitch_witness :
  autoCorrelate [1; -1; nan; -1; 1; -1; 1; -1] 2000 = -1.
Proof.
  apply (proj1 (poisoned_frame_no_pitch [1; -1; nan; -1; 1; -1; 1; -1] 2000
                  tuning_220 (or_intror (or_intror (or_introl eq_refl))))).
Defined.

Lemma sum_squares_silence (n : nat) : sum_squares (repeat 0 n) = 0.
Proof.
  unfold sum_squares. induction n as [|n IH]; [reflexivity|].
  cbn [repeat fold_left]. change (0 + 0 * 0) with 0. exact IH.
Qed.

(** The root mean square of silence is a zero, or NaN when there is no
    sample at all. *)
Lemma rms_of_silence (n : nat) :
  rms_of (repeat 0 n) = nan \/ (rms_of (repeat 0 n) <? 0.01) = true.
Proof.
  unfold rms_of. rewrite sum_squares_silence.
  set (q := 0 / num (Z.of_nat (length (repeat 0 n)))).
  assert (Q : Prim2SF q = S754_nan \/ exists s, Prim2SF q = S754_zero s).
  { unfold q. rewrite div_spec. change (Prim2SF 0) with (S754_zero false).
    destruct (Prim2SF (num _)) as [s | s | | s m e]; cbn; eauto. }
  destruct Q as [Q | [s Q]].
  - left. apply Prim2SF_nan_eq. rewrite sqrt_spec, Q. reflexivity.
  - right. rewrite ltb_spec, sqrt_spec, Q. reflexivity.
Qed.

(** X16.  Silence, a frame of zeros of any length, is never given a
    pitch, at any sample rate, and the popup keeps its smoother. *)
Theorem silence_no_pitch (n : nat) (sampleRate : float) (t : tuner) :
  autoCorrelate (repeat 0 n) sampleRate = -1
  /\ state (detectPitch (repeat 0 n) sampleRate t) = state t.
Proof.
  assert (A : autoCorrelate (repeat 0 n) sampleRate = -1).
  { destruct (rms_of_silence n) as [H | H].
    - apply nan_rms_no_pitch. exact H.
    - apply no_signal_no_pitch. exact H. }
  split; [exact A|].
  unfold detectPitch. destruct (negb (isRunning t)); [reflexivity|].
  destruct (rms_of (repeat 0 n) <? 0.01); [reflexivity|].
  rewrite A. reflexivity.
Qed.

End Poisoned.

(** ** What a session keeps true *)

Section SessionInvariants.

Local Open Scope float_scope.

Lemma detectPitch_coherent (buffer : list float) (sampleRate : float)
      (t : tuner) :
  coherent t -> coherent (detectPitch buffer sampleRate t).
Proof.
  intros (Hstop & Hshown & Hempty). unfold detectPitch, coherent.
  destruct (isRunning t) eqn:Hrun; cbn [negb];
    [|rewrite Hrun; split; [|split]; assumption].
  destruct (rms_of buffer <? 0.01).
  { split; [|split]; cbn [isRunning shown state];
      [discriminate | discriminate | exact Hempty]. }
  destruct (0 <? autoCorrelate buffer sampleRate).
  - pose proof (smoothFrequency_not_empty (state t)
                  (autoCorrelate buffer sampleRate)) as N.
    unfold smoothFrequency in *. cbn [snd] in N.
    split; [|split]; cbn [isRunning shown state lastFrequency
                          frequencyHistory] in *.
    + discriminate.
    + intros x E. injection E as <-. reflexivity.
    + intros E. contradiction.
  - split; [|split]; cbn [isRunning shown state];
      [discriminate | discriminate | exact Hempty].
Qed.

(** X17.  In every state the popup can reach: when it is not running it is
    the page as loaded, with nothing remembered; the frequency it shows is
    the last frequency of its smoother; and its history is empty only when
    the smoother is cleared. *)
Theorem session_is_coherent (es : list event) :
  let t := run initial es in
  (isRunning t = false -> t = initial)
  /\ (forall x, shown t = Reading x -> lastFrequency (state t) = x)
  /\ (frequencyHistory (state t) = [] -> state t = cleared).
Proof.
  cbv zeta. fold (coherent (run initial es)). unfold run.
  enough (G : forall t, coherent t -> coherent (fold_left step es t)).
  { apply G. split; [|split].
    - reflexivity.
    - cbn. discriminate.
    - reflexivity. }
  induction es as [|e es IH]; intros t H; cbn [fold_left]; [exact H|].
  apply IH. destruct e as [b sr | b sr |]; cbn [step].
  - unfold startTuner. apply detectPitch_coherent.
    destruct H as (_ & Hshown & Hempty).
    split; [|split]; cbn [isRunning shown state];
      [discriminate | exact Hshown | exact Hempty].
  - apply detectPitch_coherent. exact H.
  - split; [|split]; cbn; [reflexivity | discriminate | reflexivity].
Qed.

End SessionInvariants.

(** ** Ties go to the lowest lag *)

Section Ties.

Local Open Scope float_scope.

Lemma SFltb_leb_trans (x y z : spec_float) :
  SFltb x y = true -> SFleb y z = true -> SFltb x z = true.
Proof.
  unfold SFltb, SFleb.
  destruct x as [sx | sx | | sx mx ex], y as [sy | sy | | sy my ey],
           z as [sz | sz | | sz mz ez];
    cbn; try discriminate; try reflexivity;
    try (destruct sx; try destruct sy; try destruct sz; cbn; congruence).
  destruct sx, sy, sz; try discriminate; try reflexivity;
    rewrite ?Pos.compare_cont_spec; unfold Pos.switch_Eq;
    destruct (Z.compare_spec ex ey), (Z.compare_spec ey ez),
             (Z.compare_spec ex ez);
    try discriminate; try reflexivity; try lia; subst;
    destruct (Pos.compare_spec mx my), (Pos.compare_spec my mz),
             (Pos.compare_spec mx mz);
    cbn; try discriminate; try reflexivity; try lia.
Qed.

(** Nothing that [b] does not beat reaches what beats [b]. *)
Lemma beaten_stays_below (b c x : float) :
  (b <? x) = false -> (b <? c) = true -> (c <=? x) = false.
Proof.
  intros Hx Hc. destruct (c <=? x) eqn:E; [|reflexivity].
  rewrite ltb_spec in Hx, Hc. rewrite leb_spec in E.
  rewrite (SFltb_leb_trans _ _ _ Hc E) in Hx. discriminate Hx.
Qed.

Lemma search_first_best (nb : list float) (M : Z) (offsets : list Z) :
  first_best nb M offsets (search nb M offsets).
Proof.
  unfold search.
  enough (G : forall visited best,
             best_so_far nb M visited best ->
             first_best nb M visited best ->
             first_best nb M (visited ++ offsets)
                        (fold_left (search_step nb M) offsets best)).
  { apply (G [] ((-1)%Z, 0)).
    - split; [left; reflexivity|]. intros k [].
    - left. reflexivity. }
  induction offsets as [|k offsets IH]; intros visited best B F;
    cbn [fold_left].
  - rewrite app_nil_r. exact F.
  - replace (visited ++ k :: offsets) with ((visited ++ [k]) ++ offsets)
      by (rewrite <- app_assoc; reflexivity).
    apply IH; [apply search_step_best; exact B|].
    unfold search_step.
    destruct (snd best <? correlation nb M k) eqn:E.
    + right. exists visited, []. cbn [fst snd]. split; [reflexivity|].
      intros j Hj. destruct B as [_ Hmax].
      exact (beaten_stays_below _ _ _ (Hmax j Hj) E).
    + destruct F as [-> | (before & after & -> & Hb)];
        [left; reflexivity|].
      right. exists before, (after ++ [k]). split; [|exact Hb].
      rewrite <- app_assoc. reflexivity.
Qed.

Lemma Zrange_split_below (a b x k : Z) (before after : list Z) :
  Zrange a b = before ++ x :: after ->
  In k (Zrange a b) -> (k < x)%Z -> In k before.
Proof.
  unfold Zrange. generalize (Z.to_nat (b - a)) as n. intros n.
  revert a before. induction n as [|n IH]; intros a before E Hk Hlt.
  - destruct before; discriminate E.
  - cbn [seq map] in E, Hk. rewrite <- seq_shift, map_map in E, Hk.
    rewrite Z.add_0_r in E, Hk.
    assert (S : map (fun k0 => (a + Z.of_nat (S k0))%Z) (seq 0 n)
                = map (fun k0 => (a + 1 + Z.of_nat k0)%Z) (seq 0 n))
      by (apply map_ext; intros; lia).
    rewrite S in E, Hk.
    destruct before as [|y before]; cbn [app] in E.
    + injection E as <- _. destruct Hk as [-> | Hk]; [lia|].
      apply in_map_iff in Hk. destruct Hk as (i & <- & _). lia.
    + injection E as <- E. destruct Hk as [-> | Hk]; [left; reflexivity|].
      right. apply (IH (a + 1)%Z before E Hk Hlt).
Qed.

(** X18.  When several lags share the best correlation the search keeps
    the lowest one: every lag of the window below [best_offset] has a
    correlation that does not reach [best_correlation]. *)
Theorem lowest_lag_wins (buffer : list float) (sampleRate : float)
        (offset : Z) :
  let nb := normalize buffer (rms_of buffer) in
  let M := (Z.of_nat (length buffer) / 2)%Z in
  let best := best_lag buffer sampleRate in
  fst best <> (-1)%Z ->
  In offset (search_window buffer sampleRate) ->
  (offset < fst best)%Z ->
  (snd best <=? correlation nb M offset) = false.
Proof.
  intros nb M best Hne Hin Hlt.
  destruct (search_first_best nb M (search_window buffer sampleRate))
    as [E | (before & after & E & Hb)].
  - unfold best, best_lag in Hne. fold nb M in Hne. rewrite E in Hne.
    contradiction.
  - apply Hb. unfold best, best_lag in Hlt. fold nb M in Hlt.
    unfold search_window, for_range in *.
    destruct (Math_floor (sampleRate / MAX_FREQUENCY)) as [a | | |];
      try contradiction.
    destruct (Math_min _ _) as [b | | |]; try contradiction.
    exact (Zrange_split_below a b _ offset before after E Hin Hlt).
Qed.

Lemma lowest_lag_wins_witness :
  (snd (best_lag period_3 2000)
   <=? correlation (normalize period_3 (rms_of period_3)) 4 2) = false.
Proof.
  apply (lowest_lag_wins period_3 2000 2).
  - vm_compute. discriminate.
  - vm_compute. left. reflexivity.
  - vm_compute. reflexivity.
Defined.

End Ties.
